(** * s3cache: an httpcache.Cache backed by Amazon S3

    A shallow embedding of [s3cache.go] and the properties of its
    three-method cache contract (Get, Set, Delete) and of its key
    derivation (url, cacheKeyToObjectKey). *)

From Stdlib Require Import ZArith Ascii String List Bool Lia.
From stdpp Require Import gmap strings list fin_maps.

Local Open Scope Z_scope.

(** ** Bytes and strings

    A Go [string] is a sequence of bytes; so is an [ascii] string.
    A Go [[]byte] is a list of bytes. *)

Definition bytes := list Byte.byte.

Definition byte_val (a : ascii) : Z := Z.of_N (N_of_ascii a).

Fixpoint string_bytes (s : string) : list Z :=
  match s with
  | EmptyString => []
  | String a r => byte_val a :: string_bytes r
  end.

(** ** crypto/md5 (RFC 1321) on 32-bit words

    Words are integers in [0, 2^32) with the wrap-around of Go's uint32
    written out. *)
Module MD5.

Definition wrap32 (x : Z) : Z := x mod 2 ^ 32.

Definition add32 (x y : Z) : Z := wrap32 (x + y).

Definition not32 (x : Z) : Z := Z.lxor x 4294967295.

(** bits.RotateLeft32 *)
Definition rotl32 (x s : Z) : Z :=
  Z.lor (wrap32 (Z.shiftl x s)) (Z.shiftr x (32 - s)).

(** per-round shift amounts *)
Definition shifts : list Z :=
  [7; 12; 17; 22; 7; 12; 17; 22; 7; 12; 17; 22; 7; 12; 17; 22;
   5;  9; 14; 20; 5;  9; 14; 20; 5;  9; 14; 20; 5;  9; 14; 20;
   4; 11; 16; 23; 4; 11; 16; 23; 4; 11; 16; 23; 4; 11; 16; 23;
   6; 10; 15; 21; 6; 10; 15; 21; 6; 10; 15; 21; 6; 10; 15; 21].

(** floor(2^32 * abs(sin(i + 1))) *)
Definition sines : list Z :=
  [0xd76aa478; 0xe8c7b756; 0x242070db; 0xc1bdceee;
   0xf57c0faf; 0x4787c62a; 0xa8304613; 0xfd469501;
   0x698098d8; 0x8b44f7af; 0xffff5bb1; 0x895cd7be;
   0x6b901122; 0xfd987193; 0xa679438e; 0x49b40821;
   0xf61e2562; 0xc040b340; 0x265e5a51; 0xe9b6c7aa;
   0xd62f105d; 0x02441453; 0xd8a1e681; 0xe7d3fbc8;
   0x21e1cde6; 0xc33707d6; 0xf4d50d87; 0x455a14ed;
   0xa9e3e905; 0xfcefa3f8; 0x676f02d9; 0x8d2a4c8a;
   0xfffa3942; 0x8771f681; 0x6d9d6122; 0xfde5380c;
   0xa4beea44; 0x4bdecfa9; 0xf6bb4b60; 0xbebfbc70;
   0x289b7ec6; 0xeaa127fa; 0xd4ef3085; 0x04881d05;
   0xd9d4d039; 0xe6db99e5; 0x1fa27cf8; 0xc4ac5665;
   0xf4292244; 0x432aff97; 0xab9423a7; 0xfc93a039;
   0x655b59c3; 0x8f0ccc92; 0xffeff47d; 0x85845dd1;
   0x6fa87e4f; 0xfe2ce6e0; 0xa3014314; 0x4e0811a1;
   0xf7537e82; 0xbd3af235; 0x2ad7d2bb; 0xeb86d391].

Definition word_at (l : list Z) (i : Z) : Z := nth (Z.to_nat i) l 0.

(** little-endian encoding of a 32-bit word, and of the 64-bit length *)
Definition le_bytes (n : nat) (w : Z) : list Z :=
  map (fun k => Z.land (Z.shiftr w (8 * Z.of_nat k)) 255) (seq 0 n).

(** little-endian decoding of four bytes *)
Definition le_word (bs : list Z) : Z :=
  Z.lor (word_at bs 0)
    (Z.lor (Z.shiftl (word_at bs 1) 8)
       (Z.lor (Z.shiftl (word_at bs 2) 16) (Z.shiftl (word_at bs 3) 24))).

(** the message followed by 0x80, zeros up to 56 modulo 64, and the bit
    length as a 64-bit little-endian integer *)
Definition pad (msg : list Z) : list Z :=
  let len := Z.of_nat (length msg) in
  msg ++ [128] ++ repeat 0 (Z.to_nat ((55 - len) mod 64))
      ++ le_bytes 8 ((8 * len) mod 2 ^ 64).

Fixpoint chunks (fuel : nat) (n : nat) (l : list Z) : list (list Z) :=
  match fuel with
  | O => []
  | S fuel' =>
      match l with
      | [] => []
      | _ => firstn n l :: chunks fuel' n (skipn n l)
      end
  end.

Definition block_words (block : list Z) : list Z :=
  map le_word (chunks 16 4 block).

Record digest_state := State { sa : Z; sb : Z; sc : Z; sd : Z }.

Definition init : digest_state :=
  State 0x67452301 0xefcdab89 0x98badcfe 0x10325476.

Definition round_fun (i : Z) (b c d : Z) : Z :=
  if i <? 16 then Z.lor (Z.land b c) (Z.land (not32 b) d)
  else if i <? 32 then Z.lor (Z.land d b) (Z.land (not32 d) c)
  else if i <? 48 then Z.lxor b (Z.lxor c d)
  else Z.lxor c (Z.lor b (not32 d)).

Definition round_index (i : Z) : Z :=
  if i <? 16 then i
  else if i <? 32 then (5 * i + 1) mod 16
  else if i <? 48 then (3 * i + 5) mod 16
  else (7 * i) mod 16.

Definition step (m : list Z) (st : digest_state) (i : Z) : digest_state :=
  let '(State a b c d) := st in
  let f := add32 (add32 (add32 (round_fun i b c d) a) (word_at sines i))
                 (word_at m (round_index i)) in
  State d (add32 b (rotl32 f (word_at shifts i))) b c.

Definition block (st : digest_state) (blk : list Z) : digest_state :=
  let m := block_words blk in
  let '(State a b c d) := fold_left (step m) (map Z.of_nat (seq 0 64)) st in
  State (add32 (sa st) a) (add32 (sb st) b) (add32 (sc st) c) (add32 (sd st) d).

(** h.Sum(nil) after io.WriteString(h, key): the 16 digest bytes *)
Definition sum (msg : list Z) : list Z :=
  let p := pad msg in
  let '(State a b c d) := fold_left block (chunks (length p) 64 p) init in
  le_bytes 4 a ++ le_bytes 4 b ++ le_bytes 4 c ++ le_bytes 4 d.

End MD5.

(** ** encoding/hex *)

Definition hextable : list ascii :=
  list_ascii_of_string "0123456789abcdef".

Definition hexdigit (n : Z) : ascii := nth (Z.to_nat n) hextable "0"%char.

(** hex.EncodeToString: [hextable[v >> 4]], [hextable[v & 0x0f]] per byte *)
Fixpoint EncodeToString (src : list Z) : string :=
  match src with
  | [] => EmptyString
  | v :: r =>
      String (hexdigit (Z.shiftr v 4))
        (String (hexdigit (Z.land v 15)) (EncodeToString r))
  end.

(** ** strings.HasSuffix *)

Definition HasSuffix (s suffix : string) : bool :=
  (String.length suffix <=? String.length s)%nat
  && String.eqb
       (substring (String.length s - String.length suffix)
          (String.length suffix) s)
       suffix.

Definition HasPrefix (s prefix : string) : bool :=
  (String.length prefix <=? String.length s)%nat
  && String.eqb (substring 0 (String.length prefix) s) prefix.

(** ** The object key of a cache key: the MD5 digest in hexadecimal *)

Definition cacheKeyToObjectKey (key : string) : string :=
  EncodeToString (MD5.sum (string_bytes key)).

(** ** github.com/sqs/s3: credentials and service descriptor *)
Module s3.

Record Keys := { AccessKey : string; SecretKey : string }.

Record Service := { Domain : string }.

Definition DefaultService : Service := {| Domain := "amazonaws.com" |}.

End s3.

(** A Go [error] value as the storage client surfaces it; [Get], [Set] and
    [Delete] only ever test it against nil. *)
Inductive error :=
| ErrNotFound | ErrNetwork | ErrAuth | ErrForbidden | ErrIO.

(** ** github.com/sqs/s3/s3util: the storage client

    Modelled from the spec: the object-storage client library is not part
    of this repository. It is a black box with three primitives,
    open-for-read, create-for-write and delete, over a store that maps a
    location to the bytes of the object kept there; each primitive either
    fails with an error or yields a handle that the caller has to close.
    A fault plan decides which calls fail, so that every failure the
    adapter can meet is expressible. *)
Module s3util.

Record Config := { Service : s3.Service; Keys : s3.Keys }.

(** One call of Read on an open stream: some data, or an error. The end
    of the list is io.EOF. *)
Inductive read_step :=
| Data (bs : bytes)
| Fail (e : error).

Inductive handle :=
| Reader (rest : list read_step)
| Writer (url : string) (buf : bytes) (failed : option error).

Inductive event :=
| Acquire (id : nat)
| Release (id : nat).

Record Faults := {
  open_fault : Config -> string -> option error;
  (** the stream breaks with the error after that many bytes *)
  read_fault : string -> option (nat * error);
  create_fault : Config -> string -> option error;
  write_fault : string -> option error;
  close_fault : string -> option error;
  delete_fault : Config -> string -> option error
}.

Definition no_faults : Faults :=
  {| open_fault := fun _ _ => None;
     read_fault := fun _ => None;
     create_fault := fun _ _ => None;
     write_fault := fun _ => None;
     close_fault := fun _ => None;
     delete_fault := fun _ _ => None |}.

Record World := {
  objects : gmap string bytes;
  handles : gmap nat handle;
  next : nat;
  log : list event;
  faults : Faults
}.

Definition with_objects (o : gmap string bytes) (w : World) : World :=
  {| objects := o; handles := handles w; next := next w;
     log := log w; faults := faults w |}.

Definition with_handle (id : nat) (h : handle) (w : World) : World :=
  {| objects := objects w; handles := <[id := h]> (handles w);
     next := next w; log := log w; faults := faults w |}.

(** a fresh handle, recorded as acquired *)
Definition alloc (h : handle) (w : World) : nat * World :=
  (next w,
   {| objects := objects w; handles := <[next w := h]> (handles w);
      next := S (next w); log := log w ++ [Acquire (next w)];
      faults := faults w |}).

Definition release (id : nat) (w : World) : World :=
  {| objects := objects w; handles := delete id (handles w);
     next := next w; log := log w ++ [Release id]; faults := faults w |}.

Definition stream_of (bs : bytes) (f : option (nat * error))
  : list read_step :=
  match f with
  | None => [Data bs]
  | Some (n, e) => [Data (take n bs); Fail e]
  end.

(** s3util.Open: a GET of the object; any status but 200 is an error *)
Definition Open (url : string) (c : Config) (w : World)
  : (nat + error) * World :=
  match open_fault (faults w) c url with
  | Some e => (inr e, w)
  | None =>
      match objects w !! url with
      | None => (inr ErrNotFound, w)
      | Some bs =>
          let '(id, w') :=
            alloc (Reader (stream_of bs (read_fault (faults w) url))) w in
          (inl id, w')
      end
  end.

(** s3util.Create: an upload that is committed when the writer closes *)
Definition Create (url : string) (c : Config) (w : World)
  : (nat + error) * World :=
  match create_fault (faults w) c url with
  | Some e => (inr e, w)
  | None =>
      let '(id, w') := alloc (Writer url [] None) w in (inl id, w')
  end.

(** s3util.Delete: a DELETE of the object; the response body is the
    handle *)
Definition Delete (url : string) (c : Config) (w : World)
  : (nat + error) * World :=
  match delete_fault (faults w) c url with
  | Some e => (inr e, w)
  | None =>
      let '(id, w') :=
        alloc (Reader []) (with_objects (delete url (objects w)) w) in
      (inl id, w')
  end.

(** io.Writer.Write on an upload *)
Definition Write (id : nat) (p : bytes) (w : World)
  : (nat * option error) * World :=
  match handles w !! id with
  | Some (Writer url buf None) =>
      match write_fault (faults w) url with
      | Some e => ((O, Some e), with_handle id (Writer url buf (Some e)) w)
      | None =>
          ((length p, None), with_handle id (Writer url (buf ++ p) None) w)
      end
  | Some (Writer url buf (Some e)) => ((O, Some e), w)
  | _ => ((O, Some ErrIO), w)
  end.

(** io.Closer.Close: a writer commits its upload unless a write or the
    close itself failed; the handle is released in every case *)
Definition Close (id : nat) (w : World) : option error * World :=
  match handles w !! id with
  | Some (Writer url buf None) =>
      match close_fault (faults w) url with
      | Some e => (Some e, release id w)
      | None =>
          (None, release id (with_objects (<[url := buf]> (objects w)) w))
      end
  | Some (Writer url buf (Some e)) => (Some e, release id w)
  | Some (Reader _) => (None, release id w)
  | None => (Some ErrIO, release id w)
  end.

(** the loop of ioutil.ReadAll over the stream: the data read so far is
    returned with the error that stopped it, io.EOF being no error *)
Fixpoint drain (s : list read_step) (acc : bytes)
  : bytes * option error * list read_step :=
  match s with
  | [] => (acc, None, [])
  | Data bs :: s' => drain s' (acc ++ bs)
  | Fail e :: s' => (acc, Some e, s')
  end.

End s3util.

(** ioutil.ReadAll on a handle *)
Definition ReadAll (id : nat) (w : s3util.World)
  : (bytes * option error) * s3util.World :=
  match s3util.handles w !! id with
  | Some (s3util.Reader s) =>
      let '(data, err, rest) := s3util.drain s [] in
      ((data, err), s3util.with_handle id (s3util.Reader rest) w)
  | _ => (([], Some ErrIO), w)
  end.

(** ** The adapter *)

(** Cache objects store and retrieve data using Amazon S3. *)
Record Cache := { Config : s3util.Config; BucketURL : string }.

(** What a method call runs on: the receiver [*c] and the outside world. *)
Record Heap := { this : Cache; world : s3util.World }.

Definition M (A : Type) : Type := Heap -> A * Heap.

Definition ret {A} (a : A) : M A := fun h => (a, h).

Definition bind {A B} (m : M A) (k : A -> M B) : M B :=
  fun h => let '(a, h') := m h in k a h'.

Definition receiver : M Cache := fun h => (this h, h).

(** a call into the storage client: it acts on the world only *)
Definition call {A} (f : s3util.World -> A * s3util.World) : M A :=
  fun h => let '(a, w) := f (world h) in (a, {| this := this h; world := w |}).

Declare Scope go_scope.
Delimit Scope go_scope with go.
Notation "x <- c1 ;; c2" := (bind c1 (fun x => c2))
  (at level 100, c1 at next level, right associativity) : go_scope.
Notation "c1 ;; c2" := (bind c1 (fun _ => c2))
  (at level 100, right associativity) : go_scope.
Local Open Scope go_scope.

Definition url (c : Cache) (key : string) : string :=
  let key := cacheKeyToObjectKey key in
  if HasSuffix (BucketURL c) "/" then BucketURL c +:+ key
  else BucketURL c +:+ "/" +:+ key.

Definition is_nil (err : option error) : bool :=
  match err with None => true | Some _ => false end.

Definition Get (key : string) : M (bytes * bool) :=
  c <- receiver ;;
  r <- call (s3util.Open (url c key) (Config c)) ;;
  match r with
  | inr err => ret ([], false)
  | inl rdr =>
      res <- call (ReadAll rdr) ;;
      call (s3util.Close rdr) ;;            (* defer rdr.Close() *)
      ret (fst res, is_nil (snd res))
  end.

Definition Set_ (key : string) (resp : bytes) : M unit :=
  c <- receiver ;;
  r <- call (s3util.Create (url c key) (Config c)) ;;
  match r with
  | inr err => ret tt
  | inl w =>
      call (s3util.Write w resp) ;;
      call (s3util.Close w) ;;              (* defer w.Close() *)
      ret tt
  end.

Definition Delete (key : string) : M unit :=
  c <- receiver ;;
  r <- call (s3util.Delete (url c key) (Config c)) ;;
  match r with
  | inr err => ret tt
  | inl rdr =>
      call (s3util.Close rdr) ;;            (* defer rdr.Close() *)
      ret tt
  end.

(** New reads the credentials from the environment; os.Getenv yields the
    empty string for a variable that is not set. *)
Definition New (Getenv : string -> string) (bucketURL : string) : Cache :=
  {| Config :=
       {| s3util.Service := s3.DefaultService;
          s3util.Keys :=
            {| s3.AccessKey := Getenv "S3_ACCESS_KEY";
               s3.SecretKey := Getenv "S3_SECRET_KEY" |} |};
     BucketURL := bucketURL |}.

(** ** Predicates used by the statements *)

(** one of 0-9 a-f *)
Definition lower_hex (a : ascii) : bool :=
  let n := nat_of_ascii a in
  ((48 <=? n)%nat && (n <=? 57)%nat) || ((97 <=? n)%nat && (n <=? 102)%nat).

Fixpoint string_forallb (p : ascii -> bool) (s : string) : bool :=
  match s with
  | EmptyString => true
  | String a r => p a && string_forallb p r
  end.

(** a value of Go's type byte: eight bits *)
Definition is_byte (v : Z) : Prop := 0 <= v < 2 ^ 8.

(** the handle is released somewhere in the events *)
Definition released (id : nat) (evs : list s3util.event) : bool :=
  existsb (fun e => match e with
                    | s3util.Release id' => Nat.eqb id id'
                    | s3util.Acquire _ => false
                    end) evs.

(** every handle acquired in the events is released later in them *)
Fixpoint all_released (evs : list s3util.event) : bool :=
  match evs with
  | [] => true
  | s3util.Acquire id :: r => released id r && all_released r
  | s3util.Release _ :: r => all_released r
  end.

(** what the caller of a method can see when it returns: the value it
    returns and the adapter object *)
Definition observe {A} (m : M A) (h : Heap) : A * Cache :=
  (fst (m h), this (snd (m h))).

(** the call releases every handle it acquires: the events it adds to the
    log pair each acquisition with a later release, and none of the
    handles it acquired is open when it returns *)
Definition closes_handles {A} (m : M A) (h : Heap) : Prop :=
  exists evs,
    s3util.log (world (snd (m h))) = s3util.log (world h) ++ evs
    /\ all_released evs = true
    /\ forall id, In (s3util.Acquire id) evs ->
                  s3util.handles (world (snd (m h))) !! id = None.

(** every open handle was handed out before: the next handle is new *)
Definition handles_fresh (w : s3util.World) : Prop :=
  forall id, is_Some (s3util.handles w !! id) -> (id < s3util.next w)%nat.

(** the value of a hexadecimal digit *)
Definition unhex (a : ascii) : Z :=
  let n := Z.of_nat (nat_of_ascii a) in
  if n <? 97 then n - 48 else n - 87.

(** the same outside world seen through another adapter object *)
Definition through (c : Cache) (h : Heap) : Heap :=
  {| this := c; world := world h |}.

(** does the fault plan break a Set, or a Delete, of the key *)
Definition Set_fails (h : Heap) (key : string) : bool :=
  let f := s3util.faults (world h) in
  let u := url (this h) key in
  negb (is_nil (s3util.create_fault f (Config (this h)) u)
        && is_nil (s3util.write_fault f u)
        && is_nil (s3util.close_fault f u)).

Definition Delete_fails (h : Heap) (key : string) : bool :=
  negb (is_nil (s3util.delete_fault (s3util.faults (world h))
                  (Config (this h)) (url (this h) key))).

(** ** Sample data *)
Module Sample.

Definition payload (s : string) : bytes := list_byte_of_string s.

Definition cache : Cache :=
  New (fun _ => "secret"%string) "https://s3-us-west-2.amazonaws.com/mybucket".

Definition empty_world (f : s3util.Faults) : s3util.World :=
  {| s3util.objects := ∅; s3util.handles := ∅; s3util.next := O;
     s3util.log := []; s3util.faults := f |}.

Definition fresh : Heap :=
  {| this := cache; world := empty_world s3util.no_faults |}.

(** the connection drops two bytes into every download *)
Definition flaky_reads : s3util.Faults :=
  {| s3util.open_fault := fun _ _ => None;
     s3util.read_fault := fun _ => Some (2%nat, ErrNetwork);
     s3util.create_fault := fun _ _ => None;
     s3util.write_fault := fun _ => None;
     s3util.close_fault := fun _ => None;
     s3util.delete_fault := fun _ _ => None |}.

(** every request is refused *)
Definition refusing : s3util.Faults :=
  {| s3util.open_fault := fun _ _ => Some ErrAuth;
     s3util.read_fault := fun _ => None;
     s3util.create_fault := fun _ _ => Some ErrForbidden;
     s3util.write_fault := fun _ => Some ErrNetwork;
     s3util.close_fault := fun _ => Some ErrNetwork;
     s3util.delete_fault := fun _ _ => Some ErrNetwork |}.

Definition with_faults (f : s3util.Faults) (h : Heap) : Heap :=
  {| this := this h;
     world := {| s3util.objects := s3util.objects (world h);
                 s3util.handles := s3util.handles (world h);
                 s3util.next := s3util.next (world h);
                 s3util.log := s3util.log (world h);
                 s3util.faults := f |} |}.

(** "abc" stored under key "k" on a healthy backend *)
Definition stored : Heap := snd (Set_ "k" (payload "abc") fresh).

(** the same store behind a connection that drops *)
Definition flaky : Heap := with_faults flaky_reads stored.

(** the same store refusing every request *)
Definition down : Heap := with_faults refusing stored.

(** uploads are accepted and then break *)
Definition failing_writes : s3util.Faults :=
  {| s3util.open_fault := fun _ _ => None;
     s3util.read_fault := fun _ => None;
     s3util.create_fault := fun _ _ => None;
     s3util.write_fault := fun _ => Some ErrNetwork;
     s3util.close_fault := fun _ => None;
     s3util.delete_fault := fun _ _ => None |}.

Definition broken_upload : Heap := with_faults failing_writes stored.

(** an adapter for the same bucket built where no credentials are set *)
Definition anonymous : Cache :=
  New (fun _ => ""%string) "https://s3-us-west-2.amazonaws.com/mybucket".

End Sample.

(** * Properties *)

(** ** Strings *)

Lemma length_append (s t : string) :
  String.length (s +:+ t) = (String.length s + String.length t)%nat.
Proof. induction s as [|a s IH]; simpl; [reflexivity | now rewrite IH]. Qed.

Lemma append_assoc (s t u : string) : (s +:+ t) +:+ u = s +:+ t +:+ u.
Proof.
  induction s as [|a s IH]; [reflexivity|].
  change (String a ((s +:+ t) +:+ u) = String a (s +:+ t +:+ u)).
  now f_equal.
Qed.

Lemma append_empty_r (s : string) : s +:+ "" = s.
Proof.
  induction s as [|a s IH]; [reflexivity|].
  change (String a (s +:+ "") = String a s). now f_equal.
Qed.

Lemma substring_all (s : string) : substring 0 (String.length s) s = s.
Proof. induction s as [|a s IH]; simpl; [reflexivity | now rewrite IH]. Qed.

Lemma substring_append_r (s t : string) :
  substring (String.length s) (String.length t) (s +:+ t) = t.
Proof. induction s as [|a s IH]; simpl; [apply substring_all | exact IH]. Qed.

Lemma HasSuffix_append (s t : string) : HasSuffix (s +:+ t) t = true.
Proof.
  unfold HasSuffix. rewrite length_append.
  replace (String.length s + String.length t - String.length t)%nat
    with (String.length s) by lia.
  rewrite substring_append_r, String.eqb_refl, andb_true_r.
  apply Nat.leb_le. lia.
Qed.

Lemma string_forallb_HasPrefix (p : ascii -> bool) (s : string) (a : ascii) :
  string_forallb p s = true -> p a = false ->
  HasPrefix s (String a EmptyString) = false.
Proof.
  intros Hs Ha. destruct s as [|c s]; [reflexivity|].
  unfold HasPrefix. simpl. simpl in Hs. apply andb_true_iff in Hs as [Hc _].
  destruct s; simpl;
    (destruct (Ascii.eqb_spec c a) as [->|Hne]; [congruence | reflexivity]).
Qed.

(** ** encoding/hex and crypto/md5 *)

Lemma land_255_byte (x : Z) : is_byte (Z.land x 255).
Proof.
  unfold is_byte. change 255 with (Z.ones 8).
  rewrite Z.land_ones by lia. apply Z.mod_pos_bound. lia.
Qed.

Lemma le_bytes_length (n : nat) (w : Z) : length (MD5.le_bytes n w) = n.
Proof. unfold MD5.le_bytes. now rewrite length_map, length_seq. Qed.

Lemma le_bytes_byte (n : nat) (w : Z) : Forall is_byte (MD5.le_bytes n w).
Proof.
  unfold MD5.le_bytes. apply Forall_map, Forall_forall.
  intros k _. apply land_255_byte.
Qed.

Lemma sum_length (msg : list Z) : length (MD5.sum msg) = 16%nat.
Proof.
  unfold MD5.sum. destruct (fold_left _ _ _) as [a b c d].
  now rewrite !length_app, !le_bytes_length.
Qed.

Lemma sum_byte (msg : list Z) : Forall is_byte (MD5.sum msg).
Proof.
  unfold MD5.sum. destruct (fold_left _ _ _) as [a b c d].
  repeat apply Forall_app_2; apply le_bytes_byte.
Qed.

Lemma hexdigit_lower (n : Z) : 0 <= n < 16 -> lower_hex (hexdigit n) = true.
Proof.
  intros Hn.
  assert (Hc : In n (map Z.of_nat (seq 0 16))).
  { apply in_map_iff. exists (Z.to_nat n). split; [lia|]. apply in_seq. lia. }
  simpl in Hc. repeat (destruct Hc as [<-|Hc]; [reflexivity|]). destruct Hc.
Qed.

Lemma EncodeToString_length (src : list Z) :
  String.length (EncodeToString src) = (2 * length src)%nat.
Proof. induction src as [|v r IH]; simpl; [reflexivity | rewrite IH; lia]. Qed.

Lemma EncodeToString_lower (src : list Z) :
  Forall is_byte src -> string_forallb lower_hex (EncodeToString src) = true.
Proof.
  induction 1 as [|v r Hv _ IH]; [reflexivity|].
  unfold is_byte in Hv. cbn [EncodeToString string_forallb].
  rewrite IH, andb_true_r. apply andb_true_iff. split; apply hexdigit_lower.
  - rewrite Z.shiftr_div_pow2 by lia. split.
    + apply Z.div_pos; lia.
    + apply Z.div_lt_upper_bound; lia.
  - change 15 with (Z.ones 4). rewrite Z.land_ones by lia.
    apply Z.mod_pos_bound. lia.
Qed.

Lemma cacheKeyToObjectKey_length (key : string) :
  String.length (cacheKeyToObjectKey key) = 32%nat.
Proof.
  unfold cacheKeyToObjectKey. now rewrite EncodeToString_length, sum_length.
Qed.

Lemma cacheKeyToObjectKey_lower (key : string) :
  string_forallb lower_hex (cacheKeyToObjectKey key) = true.
Proof. apply EncodeToString_lower, sum_byte. Qed.

(** RFC 1321, appendix A.5 *)
Example md5_test_suite :
  cacheKeyToObjectKey "" = "d41d8cd98f00b204e9800998ecf8427e"%string
  /\ cacheKeyToObjectKey "a" = "0cc175b9c0f1b6a831c399e269772661"%string
  /\ cacheKeyToObjectKey "abc" = "900150983cd24fb0d6963f7d28e17f72"%string
  /\ cacheKeyToObjectKey "message digest"
     = "f96b697d7cb7938d525a2f31aaf161d0"%string
  /\ cacheKeyToObjectKey
       "12345678901234567890123456789012345678901234567890123456789012345678901234567890"
     = "57edf4a22be3c955ac49da2e2107b67a"%string.
Proof. repeat split; vm_compute; reflexivity. Qed.

(** ** Key derivation *)

Lemma HasSuffix_sep_inv (s : string) :
  HasSuffix s "/" = true -> exists base, s = base +:+ "/".
Proof.
  induction s as [|a r IH]; [discriminate|].
  destruct r as [|a' r'].
  - unfold HasSuffix. simpl. destruct (Ascii.eqb_spec a "/") as [->|]; [|discriminate].
    intros _. now exists ""%string.
  - intros H. destruct IH as [base ->].
    + unfold HasSuffix in *. simpl in *.
      now rewrite Nat.sub_0_r.
    + now exists (String a base).
Qed.

Lemma url_shape (c : Cache) (key : string) :
  exists base,
    BucketURL c = base +:+ (if HasSuffix (BucketURL c) "/" then "/" else "")
    /\ url c key = base +:+ "/" +:+ cacheKeyToObjectKey key.
Proof.
  unfold url. destruct (HasSuffix (BucketURL c) "/") eqn:Hs.
  - destruct (HasSuffix_sep_inv _ Hs) as [base Hb]. exists base.
    split; [exact Hb|]. now rewrite Hb, append_assoc.
  - exists (BucketURL c). split; [|reflexivity].
    symmetry. apply append_empty_r.
Qed.

(** C6. The key-to-location mapping is a function of the key: equal keys
    give equal locations. The location of a key is the endpoint (less the
    separator it may already end in), one separator, and the hexadecimal
    rendering of the MD5 digest of the key: the digest is 16 bytes of 8
    bits, its rendering is 32 characters long, each one of 0-9 a-f. *)
Theorem url_deterministic_hex_digest (c : Cache) (k1 k2 : string) :
  k1 = k2 ->
  url c k1 = url c k2
  /\ exists base digest,
       BucketURL c
       = base +:+ (if HasSuffix (BucketURL c) "/" then "/" else "")
       /\ digest = MD5.sum (string_bytes k1)
       /\ length digest = 16%nat
       /\ Forall is_byte digest
       /\ url c k1 = base +:+ "/" +:+ EncodeToString digest
       /\ String.length (EncodeToString digest) = 32%nat
       /\ string_forallb lower_hex (EncodeToString digest) = true.
Proof.
  intros <-. split; [reflexivity|].
  destruct (url_shape c k1) as (base & Hb & Hu).
  exists base, (MD5.sum (string_bytes k1)).
  repeat split; auto using sum_length, sum_byte.
  - apply cacheKeyToObjectKey_length.
  - apply cacheKeyToObjectKey_lower.
Qed.

Lemma url_deterministic_hex_digest_witness :
  "k"%string = "k"%string
  /\ url Sample.cache "k" = url Sample.cache "k"
  /\ exists base digest,
       BucketURL Sample.cache
       = base +:+ (if HasSuffix (BucketURL Sample.cache) "/" then "/" else "")
       /\ digest = MD5.sum (string_bytes "k")
       /\ length digest = 16%nat
       /\ Forall is_byte digest
       /\ url Sample.cache "k" = base +:+ "/" +:+ EncodeToString digest
       /\ String.length (EncodeToString digest) = 32%nat
       /\ string_forallb lower_hex (EncodeToString digest) = true.
Proof.
  split; [reflexivity|].
  apply (url_deterministic_hex_digest Sample.cache "k" "k"). reflexivity.
Defined.

(** C7. A base location without a trailing separator and the same base
    location with the separator appended give the same location for every
    key: the base, exactly one separator, and the hex digest, which does
    not itself begin with a separator. *)
Theorem url_trailing_separator (cfg : s3util.Config) (base key : string) :
  HasSuffix base "/" = false ->
  url {| Config := cfg; BucketURL := base +:+ "/" |} key
  = url {| Config := cfg; BucketURL := base |} key
  /\ url {| Config := cfg; BucketURL := base |} key
     = base +:+ "/" +:+ cacheKeyToObjectKey key
  /\ HasPrefix (cacheKeyToObjectKey key) "/" = false.
Proof.
  intros Hb. unfold url. simpl.
  rewrite HasSuffix_append, Hb, append_assoc. repeat split.
  apply (string_forallb_HasPrefix lower_hex);
    [apply cacheKeyToObjectKey_lower | reflexivity].
Qed.

Lemma url_trailing_separator_witness :
  HasSuffix "https://s3.amazonaws.com/bucket" "/" = false
  /\ url {| Config := Config Sample.cache;
            BucketURL := "https://s3.amazonaws.com/bucket/" |} "k"
     = url {| Config := Config Sample.cache;
              BucketURL := "https://s3.amazonaws.com/bucket" |} "k".
Proof.
  split; [reflexivity|].
  apply (url_trailing_separator (Config Sample.cache)
           "https://s3.amazonaws.com/bucket" "k").
  reflexivity.
Defined.

(** Only one trailing separator is recognised: a base location that ends
    in two keeps both. *)
Example url_two_trailing_separators :
  url {| Config := Config Sample.cache; BucketURL := "https://h/b//" |} "k"
  = "https://h/b//8ce4b16b22b58894aa86c421e8759df3"%string.
Proof. vm_compute. reflexivity. Qed.

(** C10. The location of a key depends on the key and on BucketURL only:
    two caches with the same BucketURL map every key to the same location,
    whatever their credentials and service configuration. *)
Theorem url_independent_of_Config (c1 c2 : Cache) (key : string) :
  BucketURL c1 = BucketURL c2 -> url c1 key = url c2 key.
Proof. intros H. unfold url. now rewrite H. Qed.

Lemma url_independent_of_Config_witness :
  BucketURL Sample.cache = BucketURL (New (fun _ => ""%string) (BucketURL Sample.cache))
  /\ Config Sample.cache <> Config (New (fun _ => ""%string) (BucketURL Sample.cache))
  /\ url Sample.cache "k"
     = url (New (fun _ => ""%string) (BucketURL Sample.cache)) "k".
Proof.
  split; [reflexivity|]. split; [discriminate|].
  apply (url_independent_of_Config Sample.cache
           (New (fun _ => ""%string) (BucketURL Sample.cache)) "k").
  reflexivity.
Defined.

(** ** The three methods *)

Ltac run :=
  unfold Get, Set_, Delete, bind, call, receiver, ret; cbn [this world].

Ltac client :=
  unfold s3util.Open, s3util.Create, s3util.Delete, s3util.Write,
    s3util.Close, ReadAll, s3util.alloc, s3util.release,
    s3util.with_handle, s3util.with_objects, s3util.stream_of;
  cbn [s3util.objects s3util.handles s3util.next s3util.log s3util.faults].

Lemma Get_this (key : string) (h : Heap) : this (snd (Get key h)) = this h.
Proof.
  run. destruct (s3util.Open _ _ _) as [[rdr|e] w1]; cbn; [|reflexivity].
  destruct (ReadAll rdr w1) as [res w2]; cbn.
  now destruct (s3util.Close rdr w2).
Qed.

Lemma Set_this (key : string) (resp : bytes) (h : Heap) :
  this (snd (Set_ key resp h)) = this h.
Proof.
  run. destruct (s3util.Create _ _ _) as [[wr|e] w1]; cbn; [|reflexivity].
  destruct (s3util.Write wr resp w1) as [res w2]; cbn.
  now destruct (s3util.Close wr w2).
Qed.

Lemma Delete_this (key : string) (h : Heap) :
  this (snd (Delete key h)) = this h.
Proof.
  run. destruct (s3util.Delete _ _ _) as [[rdr|e] w1]; cbn; [|reflexivity].
  now destruct (s3util.Close rdr w1).
Qed.

(** C8. Get, Set and Delete leave the adapter as it was: the Config, with
    the credentials in it, and the BucketURL are the same after the call
    as before. *)
Theorem methods_preserve_configuration
  (key : string) (resp : bytes) (h : Heap) :
  (this (snd (Get key h)) = this h
   /\ this (snd (Set_ key resp h)) = this h
   /\ this (snd (Delete key h)) = this h)
  /\ (Config (this (snd (Get key h))) = Config (this h)
      /\ Config (this (snd (Set_ key resp h))) = Config (this h)
      /\ Config (this (snd (Delete key h))) = Config (this h))
  /\ (BucketURL (this (snd (Get key h))) = BucketURL (this h)
      /\ BucketURL (this (snd (Set_ key resp h))) = BucketURL (this h)
      /\ BucketURL (this (snd (Delete key h))) = BucketURL (this h)).
Proof. rewrite Get_this, Set_this, Delete_this. repeat split. Qed.

Lemma Get_after_open_error
  (key : string) (h : Heap) (e : error) (w1 : s3util.World) :
  s3util.Open (url (this h) key) (Config (this h)) (world h) = (inr e, w1) ->
  Get key h = (([], false), {| this := this h; world := w1 |}).
Proof. intros Ho. run. now rewrite Ho. Qed.

(** C4. When the open-for-read call fails, whatever the error, Get
    returns, and what it returns is the empty payload and found = false. *)
Theorem Get_open_fails
  (key : string) (h : Heap) (e : error) (w1 : s3util.World) :
  s3util.Open (url (this h) key) (Config (this h)) (world h) = (inr e, w1) ->
  fst (Get key h) = ([], false).
Proof. intros Ho. now rewrite (Get_after_open_error _ _ _ _ Ho). Qed.

Lemma Get_open_fails_witness :
  s3util.Open (url (this Sample.fresh) "k") (Config (this Sample.fresh))
    (world Sample.fresh)
  = (inr ErrNotFound, world Sample.fresh)
  /\ fst (Get "k" Sample.fresh) = ([], false).
Proof.
  split; [vm_compute; reflexivity|].
  apply (Get_open_fails "k" Sample.fresh ErrNotFound (world Sample.fresh)).
  vm_compute; reflexivity.
Defined.

(** What a successful open-for-read gives: the object exists, and the new
    handle streams its bytes, up to the point where the fault plan breaks
    the stream. *)
Lemma Open_inl (u : string) (c : s3util.Config) (w w1 : s3util.World)
  (rdr : nat) :
  s3util.Open u c w = (inl rdr, w1) ->
  exists bs,
    s3util.objects w !! u = Some bs
    /\ ReadAll rdr w1
       = (let '(data, err, rest) :=
            s3util.drain
              (s3util.stream_of bs (s3util.read_fault (s3util.faults w) u)) []
          in ((data, err), s3util.with_handle rdr (s3util.Reader rest) w1)).
Proof.
  unfold s3util.Open.
  destruct (s3util.open_fault _ _ _); [discriminate|].
  destruct (s3util.objects w !! u) as [bs|] eqn:Hbs; [|discriminate].
  client. intros [= <- <-]. exists bs. split; [reflexivity|].
  client. now rewrite lookup_insert_eq.
Qed.

Lemma Get_after_open
  (key : string) (h : Heap) (rdr : nat) (w1 w2 : s3util.World)
  (data : bytes) (err : option error) :
  s3util.Open (url (this h) key) (Config (this h)) (world h) = (inl rdr, w1) ->
  ReadAll rdr w1 = ((data, err), w2) ->
  fst (Get key h) = (data, is_nil err).
Proof.
  intros Ho Hr. run. rewrite Ho. cbn. rewrite Hr. cbn.
  now destruct (s3util.Close rdr w2).
Qed.

(** C2, as the code has it. When the open-for-read call succeeds and
    reading the stream then fails, Get returns found = false together
    with the bytes that were read before the error: a prefix of the stored
    object, which is empty only when the error came before any byte. *)
Theorem Get_read_fails
  (key : string) (h : Heap) (rdr : nat) (w1 w2 : s3util.World)
  (data : bytes) (e : error) :
  s3util.Open (url (this h) key) (Config (this h)) (world h) = (inl rdr, w1) ->
  ReadAll rdr w1 = ((data, Some e), w2) ->
  fst (Get key h) = (data, false)
  /\ exists bs n,
       s3util.objects (world h) !! url (this h) key = Some bs
       /\ data = take n bs.
Proof.
  intros Ho Hr. split; [apply (Get_after_open _ _ _ _ _ _ _ Ho Hr)|].
  destruct (Open_inl _ _ _ _ _ Ho) as (bs & Hbs & Hd).
  rewrite Hd in Hr. exists bs. unfold s3util.stream_of in Hr.
  destruct (s3util.read_fault _ _) as [[n e']|]; cbn in Hr.
  - exists n. split; [exact Hbs|]. now injection Hr as <- _ _.
  - discriminate.
Qed.

Lemma Get_read_fails_witness :
  s3util.Open (url Sample.cache "k") (Config Sample.cache)
    (world Sample.flaky)
  = (inl 1%nat,
     snd (s3util.Open (url Sample.cache "k") (Config Sample.cache)
            (world Sample.flaky)))
  /\ ReadAll 1
       (snd (s3util.Open (url Sample.cache "k") (Config Sample.cache)
               (world Sample.flaky)))
     = ((Sample.payload "ab", Some ErrNetwork),
        snd (ReadAll 1
               (snd (s3util.Open (url Sample.cache "k") (Config Sample.cache)
                       (world Sample.flaky)))))
  /\ fst (Get "k" Sample.flaky)
     = (Sample.payload "ab", false).
Proof.
  split; [vm_compute; reflexivity|]. split; [vm_compute; reflexivity|].
  apply (Get_read_fails "k"
           Sample.flaky 1%nat
           (snd (s3util.Open (url Sample.cache "k") (Config Sample.cache)
                   (world Sample.flaky)))
           (snd (ReadAll 1
                   (snd (s3util.Open (url Sample.cache "k")
                           (Config Sample.cache)
                           (world Sample.flaky)))))
           (Sample.payload "ab") ErrNetwork);
    vm_compute; reflexivity.
Defined.

(** C2, as the spec has it, fails: the object "abc" is stored, the open
    succeeds, the stream breaks after two bytes, and Get returns the two
    bytes "ab" with found = false, not the empty payload. *)
Lemma Get_read_fails_payload_not_empty :
  fst (s3util.Open (url Sample.cache "k") (Config Sample.cache)
         (world Sample.flaky))
  = inl 1%nat
  /\ fst (ReadAll 1
            (snd (s3util.Open (url Sample.cache "k") (Config Sample.cache)
                    (world Sample.flaky))))
     = (Sample.payload "ab", Some ErrNetwork)
  /\ fst (Get "k" Sample.flaky)
     = (Sample.payload "ab", false)
  /\ fst (Get "k" Sample.flaky)
     <> ([], false).
Proof.
  repeat split; try (vm_compute; reflexivity).
  vm_compute. discriminate.
Qed.

(** C3. Whenever Get returns found = true, the open succeeded, the stream
    was read to its end without error, and the payload returned is the
    whole of the object stored at the location of the key. *)
Theorem Get_found_complete (key : string) (h : Heap) (p : bytes) :
  fst (Get key h) = (p, true) ->
  s3util.objects (world h) !! url (this h) key = Some p
  /\ exists rdr w1 w2,
       s3util.Open (url (this h) key) (Config (this h)) (world h)
       = (inl rdr, w1)
       /\ ReadAll rdr w1 = ((p, None), w2).
Proof.
  intros Hg.
  destruct (s3util.Open (url (this h) key) (Config (this h)) (world h))
    as [[rdr|e] w1] eqn:Ho.
  - destruct (ReadAll rdr w1) as [[data err] w2] eqn:Hr.
    rewrite (Get_after_open _ _ _ _ _ _ _ Ho Hr) in Hg.
    injection Hg as -> Herr. destruct err; [discriminate|].
    split; [|now exists rdr, w1, w2].
    destruct (Open_inl _ _ _ _ _ Ho) as (bs & Hbs & Hd).
    rewrite Hd in Hr. unfold s3util.stream_of in Hr.
    destruct (s3util.read_fault _ _) as [[n e']|]; cbn in Hr.
    + discriminate.
    + injection Hr as <- _. exact Hbs.
  - rewrite (Get_after_open_error _ _ _ _ Ho) in Hg. discriminate.
Qed.

Lemma Get_found_complete_witness :
  fst (Get "k" Sample.stored) = (Sample.payload "abc", true)
  /\ s3util.objects (world Sample.stored) !! url (this Sample.stored) "k"
     = Some (Sample.payload "abc").
Proof.
  split; [vm_compute; reflexivity|].
  apply (Get_found_complete "k" Sample.stored (Sample.payload "abc")).
  vm_compute; reflexivity.
Defined.

(** C1. On a backend where no operation fails, Set(k, p) followed by
    Get(k) returns (p, true), for every key and every payload, the empty
    one included. *)
Theorem Set_Get_roundtrip (key : string) (p : bytes) (h : Heap) :
  s3util.faults (world h) = s3util.no_faults ->
  fst (Get key (snd (Set_ key p h))) = (p, true).
Proof.
  destruct h as [c [objs hs n l f]]. cbn. intros ->.
  run. client. cbn. repeat (rewrite lookup_insert_eq; cbn). reflexivity.
Qed.

Lemma Set_Get_roundtrip_witness :
  s3util.faults (world Sample.fresh) = s3util.no_faults
  /\ fst (Get "k" (snd (Set_ "k" [] Sample.fresh))) = ([], true)
  /\ fst (Get "k" (snd (Set_ "k" (Sample.payload "abc") Sample.fresh)))
     = (Sample.payload "abc", true).
Proof.
  split; [reflexivity|]. split.
  - apply (Set_Get_roundtrip "k" [] Sample.fresh). reflexivity.
  - apply (Set_Get_roundtrip "k" (Sample.payload "abc") Sample.fresh).
    reflexivity.
Defined.

(** ** Handles *)

Ltac nothing_acquired :=
  exists []; cbn; rewrite app_nil_r; repeat split; intros ? [].

Ltac acquired_and_released n :=
  exists [s3util.Acquire n; s3util.Release n]; cbn;
  split; [now rewrite <- app_assoc|];
  split; [now rewrite Nat.eqb_refl|];
  intros ? [[= <-]|[[=]|[]]]; apply lookup_delete_eq.

Lemma Get_closes (key : string) (h : Heap) : closes_handles (Get key) h.
Proof.
  destruct h as [c [objs hs n l f]]. unfold closes_handles. run. client.
  destruct (s3util.open_fault f (Config c) (url c key)); [nothing_acquired|].
  destruct (objs !! url c key) as [bs|]; [|nothing_acquired].
  cbn. rewrite lookup_insert_eq.
  destruct (s3util.drain _ _) as [[data err] rest]. cbn.
  rewrite lookup_insert_eq. cbn. acquired_and_released n.
Qed.

Lemma Set_closes (key : string) (resp : bytes) (h : Heap) :
  closes_handles (Set_ key resp) h.
Proof.
  destruct h as [c [objs hs n l f]]. unfold closes_handles. run. client.
  destruct (s3util.create_fault f (Config c) (url c key)); [nothing_acquired|].
  cbn. rewrite lookup_insert_eq.
  destruct (s3util.write_fault f (url c key)); cbn;
    rewrite lookup_insert_eq; cbn.
  - acquired_and_released n.
  - destruct (s3util.close_fault f (url c key)); cbn;
      acquired_and_released n.
Qed.

Lemma Delete_closes (key : string) (h : Heap) :
  closes_handles (Delete key) h.
Proof.
  destruct h as [c [objs hs n l f]]. unfold closes_handles. run. client.
  destruct (s3util.delete_fault f (Config c) (url c key)); [nothing_acquired|].
  cbn. rewrite lookup_insert_eq. cbn. acquired_and_released n.
Qed.

(** C9. Get, Set and Delete close every handle they obtain from the
    storage client before they return, whether the read or the write on
    the handle succeeded or failed: each acquisition the call adds to the
    log is followed by the release of the same handle, and the handle is
    not open when the call returns. *)
Theorem methods_close_their_handles
  (key : string) (resp : bytes) (h : Heap) :
  closes_handles (Get key) h
  /\ closes_handles (Set_ key resp) h
  /\ closes_handles (Delete key) h.
Proof.
  split; [|split].
  - apply Get_closes.
  - apply Set_closes.
  - apply Delete_closes.
Qed.

(** The read fails half way and the handle is closed all the same. *)
Example Get_closes_after_read_error :
  fst (Get "k" Sample.flaky) = (Sample.payload "ab", false)
  /\ s3util.log (world (snd (Get "k" Sample.flaky)))
     = s3util.log (world Sample.flaky)
         ++ [s3util.Acquire 1; s3util.Release 1]
  /\ s3util.handles (world (snd (Get "k" Sample.flaky))) !! 1%nat = None.
Proof. repeat split; vm_compute; reflexivity. Qed.

(** ** Failures of Set and Delete *)

Lemma Set_returns (key : string) (resp : bytes) (h : Heap) :
  observe (Set_ key resp) h = (tt, this h).
Proof.
  unfold observe. rewrite Set_this. now destruct (fst (Set_ key resp h)).
Qed.

Lemma Delete_returns (key : string) (h : Heap) :
  observe (Delete key) h = (tt, this h).
Proof.
  unfold observe. rewrite Delete_this. now destruct (fst (Delete key h)).
Qed.

(** C5. Every failure on the Set path and on the Delete path is dropped:
    the method returns, with nothing for the caller to see. When the
    open-for-write fails, Set returns at once, making no further call.
    When the write or the close fails, Set discards the error, closes the
    writer and returns. When the delete call fails, Delete returns at
    once. In each case, as on success, the caller gets the empty result
    and the adapter object as it was. Delete of a key that does not exist
    returns the same way, and the key still does not exist. *)
Theorem Set_Delete_failures_silent
  (key : string) (resp : bytes) (h : Heap) :
  (forall e w1,
      s3util.Create (url (this h) key) (Config (this h)) (world h)
      = (inr e, w1) ->
      Set_ key resp h = (tt, {| this := this h; world := w1 |}))
  /\ (forall wr w1 n e w2,
         s3util.Create (url (this h) key) (Config (this h)) (world h)
         = (inl wr, w1) ->
         s3util.Write wr resp w1 = ((n, Some e), w2) ->
         Set_ key resp h
         = (tt, {| this := this h; world := snd (s3util.Close wr w2) |}))
  /\ (forall wr w1 res w2 e w3,
         s3util.Create (url (this h) key) (Config (this h)) (world h)
         = (inl wr, w1) ->
         s3util.Write wr resp w1 = (res, w2) ->
         s3util.Close wr w2 = (Some e, w3) ->
         Set_ key resp h = (tt, {| this := this h; world := w3 |}))
  /\ (forall e w1,
         s3util.Delete (url (this h) key) (Config (this h)) (world h)
         = (inr e, w1) ->
         Delete key h = (tt, {| this := this h; world := w1 |}))
  /\ (s3util.objects (world h) !! url (this h) key = None ->
      observe (Delete key) h = (tt, this h)
      /\ s3util.objects (world (snd (Delete key h))) !! url (this h) key
         = None)
  /\ observe (Set_ key resp) h = (tt, this h)
  /\ observe (Delete key) h = (tt, this h).
Proof.
  repeat apply conj.
  - intros e w1 Hc. run. now rewrite Hc.
  - intros wr w1 n e w2 Hc Hw. run. rewrite Hc. cbn. rewrite Hw. cbn.
    now destruct (s3util.Close wr w2).
  - intros wr w1 res w2 e w3 Hc Hw Hcl. run. rewrite Hc. cbn.
    rewrite Hw. cbn. now rewrite Hcl.
  - intros e w1 Hd. run. now rewrite Hd.
  - intros Hn. split; [apply Delete_returns|].
    destruct h as [c [objs hs n l f]]. cbn in Hn. run. client.
    destruct (s3util.delete_fault f (Config c) (url c key)); [exact Hn|].
    cbn. rewrite lookup_insert_eq. cbn. apply lookup_delete_eq.
  - apply Set_returns.
  - apply Delete_returns.
Qed.

Lemma Set_Delete_failures_silent_witness :
  (* the open-for-write is refused *)
  Set_ "k" (Sample.payload "xyz") Sample.down = (tt, Sample.down)
  (* the upload breaks *)
  /\ fst (s3util.Write 1
            (Sample.payload "xyz")
            (snd (s3util.Create (url Sample.cache "k") (Config Sample.cache)
                    (world Sample.broken_upload))))
     = (O, Some ErrNetwork)
  /\ observe (Set_ "k" (Sample.payload "xyz")) Sample.broken_upload
     = (tt, Sample.cache)
  /\ s3util.handles
       (world (snd (Set_ "k" (Sample.payload "xyz") Sample.broken_upload)))
     !! 1%nat = None
  (* the delete is refused *)
  /\ Delete "k" Sample.down = (tt, Sample.down)
  (* the key does not exist *)
  /\ observe (Delete "k") Sample.fresh = (tt, Sample.cache).
Proof.
  destruct (Set_Delete_failures_silent "k" (Sample.payload "xyz")
              Sample.down) as (Hcreate & _ & _ & Hdelete & _).
  destruct (Set_Delete_failures_silent "k" (Sample.payload "xyz")
              Sample.broken_upload) as (_ & Hwrite & _).
  destruct (Set_Delete_failures_silent "k" (Sample.payload "xyz")
              Sample.fresh) as (_ & _ & _ & _ & Hnone & _).
  split; [apply (Hcreate ErrForbidden (world Sample.down)); reflexivity|].
  split; [vm_compute; reflexivity|].
  assert (Hset :
            Set_ "k" (Sample.payload "xyz") Sample.broken_upload
            = (tt,
               {| this := this Sample.broken_upload;
                  world :=
                    snd (s3util.Close 1
                           (snd (s3util.Write 1 (Sample.payload "xyz")
                                   (snd (s3util.Create
                                           (url Sample.cache "k")
                                           (Config Sample.cache)
                                           (world Sample.broken_upload))))))
               |})).
  { apply (Hwrite 1%nat
             (snd (s3util.Create (url Sample.cache "k")
                     (Config Sample.cache) (world Sample.broken_upload)))
             O ErrNetwork
             (snd (s3util.Write 1 (Sample.payload "xyz")
                     (snd (s3util.Create (url Sample.cache "k")
                             (Config Sample.cache)
                             (world Sample.broken_upload))))));
      vm_compute; reflexivity. }
  split; [unfold observe; rewrite Hset; reflexivity|].
  split; [rewrite Hset; vm_compute; reflexivity|].
  split; [apply (Hdelete ErrNetwork (world Sample.down)); reflexivity|].
  apply Hnone. vm_compute; reflexivity.
Defined.

(** A backend that refuses every request: Set and Delete return as on a
    healthy one, and the store keeps what it had. *)
Example Set_Delete_on_failing_backend :
  fst (s3util.Create (url Sample.cache "k") (Config Sample.cache)
         (world Sample.down)) = inr ErrForbidden
  /\ fst (s3util.Delete (url Sample.cache "k") (Config Sample.cache)
            (world Sample.down)) = inr ErrNetwork
  /\ observe (Set_ "k" (Sample.payload "xyz")) Sample.down
     = observe (Set_ "k" (Sample.payload "xyz")) Sample.stored
  /\ observe (Delete "k") Sample.down = observe (Delete "k") Sample.stored
  /\ s3util.objects (world (snd (Set_ "k" (Sample.payload "xyz") Sample.down)))
       !! url Sample.cache "k" = Some (Sample.payload "abc")
  /\ s3util.objects (world (snd (Delete "k" Sample.down)))
       !! url Sample.cache "k" = Some (Sample.payload "abc").
Proof. repeat split; vm_compute; reflexivity. Qed.

(** Delete of a key that was never set. *)
Example Delete_nonexistent_key :
  s3util.objects (world Sample.fresh) !! url Sample.cache "k" = None
  /\ observe (Delete "k") Sample.fresh = (tt, Sample.cache).
Proof. split; vm_compute; reflexivity. Qed.

(** ** The cache contract on a healthy backend *)

(** X1. Get of a key at whose location the store holds no object returns
    the empty payload and found = false, whatever faults the backend
    has. *)
Lemma Get_miss (key : string) (h : Heap) :
  s3util.objects (world h) !! url (this h) key = None ->
  fst (Get key h) = ([], false).
Proof.
  intros Hn.
  destruct (s3util.Open (url (this h) key) (Config (this h)) (world h))
    as [[rdr|e] w1] eqn:Ho.
  - destruct (Open_inl _ _ _ _ _ Ho) as (bs & Hbs & _). congruence.
  - now rewrite (Get_after_open_error _ _ _ _ Ho).
Qed.

(** * Further properties of the adapter *)

(** ** What each method does to the store *)

(** The answer of Get, read off the store and the fault plan. *)
Lemma Get_result (key : string) (h : Heap) :
  fst (Get key h)
  = match s3util.open_fault (s3util.faults (world h)) (Config (this h))
            (url (this h) key) with
    | Some _ => ([], false)
    | None =>
        match s3util.objects (world h) !! url (this h) key with
        | None => ([], false)
        | Some bs =>
            match s3util.read_fault (s3util.faults (world h))
                    (url (this h) key) with
            | None => (bs, true)
            | Some (n, _) => (take n bs, false)
            end
        end
    end.
Proof.
  destruct h as [c [objs hs n l f]]. run. client.
  destruct (s3util.open_fault f (Config c) (url c key)); [reflexivity|].
  destruct (objs !! url c key) as [bs|]; [|reflexivity].
  cbn. rewrite lookup_insert_eq.
  destruct (s3util.read_fault f (url c key)) as [[k e]|]; cbn;
    rewrite lookup_insert_eq; reflexivity.
Qed.

Lemma Get_store (key : string) (h : Heap) :
  s3util.objects (world (snd (Get key h))) = s3util.objects (world h)
  /\ s3util.faults (world (snd (Get key h))) = s3util.faults (world h).
Proof.
  destruct h as [c [objs hs n l f]]. run. client.
  destruct (s3util.open_fault f (Config c) (url c key)); [now split|].
  destruct (objs !! url c key) as [bs|]; [|now split].
  cbn. rewrite lookup_insert_eq.
  destruct (s3util.drain _ _) as [[data err] rest]. cbn.
  rewrite lookup_insert_eq. now split.
Qed.

Lemma Set_store (key : string) (resp : bytes) (h : Heap) :
  s3util.objects (world (snd (Set_ key resp h)))
  = (if Set_fails h key then s3util.objects (world h)
     else <[url (this h) key := resp]> (s3util.objects (world h)))
  /\ s3util.faults (world (snd (Set_ key resp h))) = s3util.faults (world h).
Proof.
  destruct h as [c [objs hs n l f]]. unfold Set_fails. run. client.
  destruct (s3util.create_fault f (Config c) (url c key)); [now split|].
  cbn. rewrite lookup_insert_eq.
  destruct (s3util.write_fault f (url c key)); cbn;
    rewrite lookup_insert_eq; cbn; [now split|].
  destruct (s3util.close_fault f (url c key)); now split.
Qed.

Lemma Delete_store (key : string) (h : Heap) :
  s3util.objects (world (snd (Delete key h)))
  = (if Delete_fails h key then s3util.objects (world h)
     else delete (url (this h) key) (s3util.objects (world h)))
  /\ s3util.faults (world (snd (Delete key h))) = s3util.faults (world h).
Proof.
  destruct h as [c [objs hs n l f]]. unfold Delete_fails. run. client.
  destruct (s3util.delete_fault f (Config c) (url c key)); [now split|].
  cbn. rewrite lookup_insert_eq. now split.
Qed.

(** Two heaps with the same adapter, store and fault plan answer Get
    alike. *)
Lemma Get_ext (key : string) (h h' : Heap) :
  this h' = this h ->
  s3util.objects (world h') = s3util.objects (world h) ->
  s3util.faults (world h') = s3util.faults (world h) ->
  fst (Get key h') = fst (Get key h).
Proof. intros Ht Ho Hf. now rewrite !Get_result, Ht, Ho, Hf. Qed.

Lemma healthy_never_fails (h : Heap) (key : string) :
  s3util.faults (world h) = s3util.no_faults ->
  Set_fails h key = false /\ Delete_fails h key = false.
Proof. intros Hf. unfold Set_fails, Delete_fails. now rewrite Hf. Qed.

Lemma Get_miss_witness :
  s3util.objects (world Sample.fresh) !! url (this Sample.fresh) "k" = None
  /\ fst (Get "k" Sample.fresh) = ([], false).
Proof.
  split; [vm_compute; reflexivity|].
  apply (Get_miss "k" Sample.fresh). vm_compute; reflexivity.
Defined.

(** ** Get reads and nothing else *)

(** X3. Get never changes the store, whether it finds the object, misses it
    or fails half way through the read; asked again, it answers the
    same. *)
Theorem Get_is_read_only (key key' : string) (h : Heap) :
  s3util.objects (world (snd (Get key h))) = s3util.objects (world h)
  /\ fst (Get key' (snd (Get key h))) = fst (Get key' h).
Proof.
  destruct (Get_store key h) as [Ho Hf]. split; [exact Ho|].
  apply Get_ext; [apply Get_this | exact Ho | exact Hf].
Qed.

(** ** Set, Delete and Get in sequence *)

(** X4. Last write wins: after Set(k, p1) and Set(k, p2) on a backend where
    nothing fails, Get(k) returns (p2, true). *)
Theorem Set_Set_Get_overwrite (key : string) (p1 p2 : bytes) (h : Heap) :
  s3util.faults (world h) = s3util.no_faults ->
  fst (Get key (snd (Set_ key p2 (snd (Set_ key p1 h))))) = (p2, true).
Proof.
  intros Hf.
  destruct (Set_store key p1 h) as [_ Hf1]. rewrite Hf in Hf1.
  destruct (Set_store key p2 (snd (Set_ key p1 h))) as [Ho2 Hf2].
  rewrite Hf1 in Hf2.
  destruct (healthy_never_fails (snd (Set_ key p1 h)) key Hf1) as [Hs _].
  rewrite Hs in Ho2.
  rewrite Get_result, Hf2, Ho2, !Set_this. cbn.
  now rewrite lookup_insert_eq.
Qed.

Lemma Set_Set_Get_overwrite_witness :
  s3util.faults (world Sample.fresh) = s3util.no_faults
  /\ fst (Get "k" (snd (Set_ "k" (Sample.payload "new")
                          (snd (Set_ "k" (Sample.payload "old")
                                  Sample.fresh)))))
     = (Sample.payload "new", true).
Proof.
  split; [reflexivity|].
  apply (Set_Set_Get_overwrite "k" (Sample.payload "old")
           (Sample.payload "new") Sample.fresh).
  reflexivity.
Defined.

(** X5. After a Delete that the backend carried out, Get of the same key
    misses, whatever was stored before and whatever faults affect the
    reads. *)
Theorem Delete_then_Get_misses (key : string) (h : Heap) :
  Delete_fails h key = false ->
  fst (Get key (snd (Delete key h))) = ([], false).
Proof.
  intros Hd. destruct (Delete_store key h) as [Ho Hf]. rewrite Hd in Ho.
  rewrite Get_result, Hf, Ho, !Delete_this, lookup_delete_eq.
  now destruct (s3util.open_fault _ _ _).
Qed.

Lemma Delete_then_Get_misses_witness :
  Delete_fails Sample.stored "k" = false
  /\ fst (Get "k" Sample.stored) = (Sample.payload "abc", true)
  /\ fst (Get "k" (snd (Delete "k" Sample.stored))) = ([], false).
Proof.
  split; [reflexivity|]. split; [vm_compute; reflexivity|].
  apply (Delete_then_Get_misses "k" Sample.stored). reflexivity.
Defined.

(** X6. Set and Delete of one key leave the entries at every other location
    alone: Get of a key with a different location answers after the call
    as it did before. *)
Theorem other_keys_untouched (key key' : string) (resp : bytes) (h : Heap) :
  url (this h) key <> url (this h) key' ->
  fst (Get key' (snd (Set_ key resp h))) = fst (Get key' h)
  /\ fst (Get key' (snd (Delete key h))) = fst (Get key' h).
Proof.
  intros Hne.
  destruct (Set_store key resp h) as [Hso Hsf].
  destruct (Delete_store key h) as [Hdo Hdf].
  rewrite !Get_result, Hsf, Hdf, Hso, Hdo, Set_this, Delete_this.
  destruct (Set_fails h key), (Delete_fails h key);
    rewrite ?lookup_insert_ne, ?lookup_delete_ne by exact Hne; now split.
Qed.

Lemma other_keys_untouched_witness :
  url (this Sample.stored) "other" <> url (this Sample.stored) "k"
  /\ fst (Get "k" (snd (Set_ "other" (Sample.payload "xyz") Sample.stored)))
     = fst (Get "k" Sample.stored)
  /\ fst (Get "k" (snd (Delete "other" Sample.stored)))
     = fst (Get "k" Sample.stored).
Proof.
  assert (Hne : url (this Sample.stored) "other"
                <> url (this Sample.stored) "k")
    by (vm_compute; discriminate).
  split; [exact Hne|].
  apply (other_keys_untouched "other" "k" (Sample.payload "xyz")
           Sample.stored Hne).
Defined.

(** X2. A Get that meets no fault returns the whole stored object. *)
Theorem Get_hit (key : string) (bs : bytes) (h : Heap) :
  s3util.open_fault (s3util.faults (world h)) (Config (this h))
    (url (this h) key) = None ->
  s3util.read_fault (s3util.faults (world h)) (url (this h) key) = None ->
  s3util.objects (world h) !! url (this h) key = Some bs ->
  fst (Get key h) = (bs, true).
Proof.
  intros Ho Hr Hb. rewrite Get_result, Ho. unfold bytes in *.
  now rewrite Hb, Hr.
Qed.

Lemma Get_hit_witness :
  s3util.objects (world Sample.stored) !! url (this Sample.stored) "k"
  = Some (Sample.payload "abc")
  /\ fst (Get "k" Sample.stored) = (Sample.payload "abc", true).
Proof.
  split; [vm_compute; reflexivity|].
  apply (Get_hit "k" (Sample.payload "abc") Sample.stored);
    vm_compute; reflexivity.
Defined.

(** X9. On a backend where nothing fails, doing a Set or a Delete twice
    leaves the store as doing it once. *)
Theorem Set_Delete_idempotent (key : string) (resp : bytes) (h : Heap) :
  s3util.faults (world h) = s3util.no_faults ->
  s3util.objects (world (snd (Set_ key resp (snd (Set_ key resp h)))))
  = s3util.objects (world (snd (Set_ key resp h)))
  /\ s3util.objects (world (snd (Delete key (snd (Delete key h)))))
     = s3util.objects (world (snd (Delete key h))).
Proof.
  intros Hf.
  destruct (Set_store key resp h) as [Hso Hsf].
  destruct (Set_store key resp (snd (Set_ key resp h))) as [Hso' _].
  destruct (Delete_store key h) as [Hdo Hdf].
  destruct (Delete_store key (snd (Delete key h))) as [Hdo' _].
  rewrite Hf in Hsf, Hdf.
  destruct (healthy_never_fails h key Hf) as [Hs Hd].
  destruct (healthy_never_fails _ key Hsf) as [Hs' _].
  destruct (healthy_never_fails _ key Hdf) as [_ Hd'].
  rewrite Hso', Hdo', Hs', Hd', Hso, Hdo, Hs, Hd, Set_this, Delete_this.
  now rewrite insert_insert_eq, delete_delete_eq.
Qed.

Lemma Set_Delete_idempotent_witness :
  s3util.faults (world Sample.stored) = s3util.no_faults
  /\ s3util.objects
       (world (snd (Set_ "k" (Sample.payload "xyz")
                      (snd (Set_ "k" (Sample.payload "xyz") Sample.stored)))))
     = s3util.objects
         (world (snd (Set_ "k" (Sample.payload "xyz") Sample.stored)))
  /\ s3util.objects (world (snd (Delete "k" (snd (Delete "k" Sample.stored)))))
     = s3util.objects (world (snd (Delete "k" Sample.stored))).
Proof.
  split; [reflexivity|].
  apply (Set_Delete_idempotent "k" (Sample.payload "xyz") Sample.stored).
  reflexivity.
Defined.

(** ** Handles *)

Lemma fresh_next (w : s3util.World) :
  handles_fresh w -> s3util.handles w !! s3util.next w = None.
Proof.
  intros Hw. destruct (s3util.handles w !! s3util.next w) eqn:Hn;
    [|reflexivity].
  assert (s3util.next w < s3util.next w)%nat by (apply Hw; eauto). lia.
Qed.

Ltac same_handles Hn Hw :=
  cbn; rewrite ?delete_insert_eq, (delete_id _ _ Hn);
  split; [reflexivity|];
  intros id Hid; specialize (Hw id Hid); cbn in *; lia.

(** X10. When every open handle is an old one, the handles open after a Get, a
    Set or a Delete are those open before it, no more and no fewer, and
    again every open handle is an old one: calls can follow each other
    without the number of open handles growing. *)
Theorem open_handles_unchanged (key : string) (resp : bytes) (h : Heap) :
  handles_fresh (world h) ->
  (s3util.handles (world (snd (Get key h))) = s3util.handles (world h)
   /\ handles_fresh (world (snd (Get key h))))
  /\ (s3util.handles (world (snd (Set_ key resp h)))
      = s3util.handles (world h)
      /\ handles_fresh (world (snd (Set_ key resp h))))
  /\ (s3util.handles (world (snd (Delete key h)))
      = s3util.handles (world h)
      /\ handles_fresh (world (snd (Delete key h)))).
Proof.
  intros Hw. pose proof (fresh_next _ Hw) as Hn.
  destruct h as [c [objs hs n l f]]. cbn in Hn.
  split; [|split]; run; client.
  - destruct (s3util.open_fault f (Config c) (url c key)); [now split|].
    destruct (objs !! url c key) as [bs|]; [|now split].
    cbn. rewrite lookup_insert_eq.
    destruct (s3util.drain _ _) as [[data err] rest]. cbn.
    rewrite lookup_insert_eq. same_handles Hn Hw.
  - destruct (s3util.create_fault f (Config c) (url c key)); [now split|].
    cbn. rewrite lookup_insert_eq.
    destruct (s3util.write_fault f (url c key)); cbn;
      rewrite lookup_insert_eq; cbn; [same_handles Hn Hw|].
    destruct (s3util.close_fault f (url c key)); same_handles Hn Hw.
  - destruct (s3util.delete_fault f (Config c) (url c key)); [now split|].
    cbn. rewrite lookup_insert_eq. same_handles Hn Hw.
Qed.

Lemma fresh_world_handles : handles_fresh (world Sample.fresh).
Proof.
  intros id [x Hx].
  change (s3util.handles (world Sample.fresh))
    with (∅ : gmap nat s3util.handle) in Hx.
  rewrite lookup_empty in Hx. discriminate.
Defined.

Lemma open_handles_unchanged_witness :
  handles_fresh (world Sample.fresh)
  /\ s3util.handles (world (snd (Set_ "k" (Sample.payload "abc")
                                   Sample.fresh)))
     = s3util.handles (world Sample.fresh)
  /\ handles_fresh (world (snd (Set_ "k" (Sample.payload "abc")
                                  Sample.fresh))).
Proof.
  split; [exact fresh_world_handles|].
  apply (open_handles_unchanged "k" (Sample.payload "abc") Sample.fresh
           fresh_world_handles).
Defined.

(** ** Locations and digests *)

Lemma append_inj_l (s t u : string) : s +:+ t = s +:+ u -> t = u.
Proof.
  induction s as [|a s IH]; [trivial|].
  change (String a (s +:+ t) = String a (s +:+ u) -> t = u).
  intros [= H]. now apply IH.
Qed.

Lemma append_inj_r (s t u : string) : s +:+ u = t +:+ u -> s = t.
Proof.
  revert t. induction s as [|a s IH]; intros [|b t] H.
  - reflexivity.
  - apply (f_equal String.length) in H.
    change (String b t +:+ u) with (String b (t +:+ u)) in H.
    cbn in H. rewrite !length_append in H. cbn in H. lia.
  - apply (f_equal String.length) in H.
    change (String a s +:+ u) with (String a (s +:+ u)) in H.
    cbn in H. rewrite !length_append in H. cbn in H. lia.
  - change (String a (s +:+ u) = String b (t +:+ u)) in H.
    injection H as -> H. f_equal. now apply IH.
Qed.

Lemma unhex_hexdigit (n : Z) : 0 <= n < 16 -> unhex (hexdigit n) = n.
Proof.
  intros Hn.
  assert (Hc : In n (map Z.of_nat (seq 0 16))).
  { apply in_map_iff. exists (Z.to_nat n). split; [lia|]. apply in_seq. lia. }
  simpl in Hc. repeat (destruct Hc as [<-|Hc]; [reflexivity|]). destruct Hc.
Qed.

Lemma high_nibble (v : Z) : is_byte v -> 0 <= Z.shiftr v 4 < 16.
Proof.
  unfold is_byte. intros Hv. rewrite Z.shiftr_div_pow2 by lia. split.
  - apply Z.div_pos; lia.
  - apply Z.div_lt_upper_bound; lia.
Qed.

Lemma low_nibble (v : Z) : 0 <= Z.land v 15 < 16.
Proof.
  change 15 with (Z.ones 4). rewrite Z.land_ones by lia.
  apply Z.mod_pos_bound. lia.
Qed.

Lemma nibbles (v : Z) : v = 16 * Z.shiftr v 4 + Z.land v 15.
Proof.
  rewrite Z.shiftr_div_pow2 by lia. change 15 with (Z.ones 4).
  rewrite Z.land_ones by lia. apply Z.div_mod. lia.
Qed.

Lemma EncodeToString_inj (l1 l2 : list Z) :
  Forall is_byte l1 -> Forall is_byte l2 ->
  EncodeToString l1 = EncodeToString l2 -> l1 = l2.
Proof.
  intros H1. revert l2.
  induction H1 as [|v1 r1 Hv1 _ IH]; intros l2 H2 He;
    destruct H2 as [|v2 r2 Hv2 H2]; try discriminate; [reflexivity|].
  cbn [EncodeToString] in He. injection He as Hhi Hlo Hr.
  apply (f_equal unhex) in Hhi, Hlo.
  rewrite !unhex_hexdigit in Hhi, Hlo by auto using high_nibble, low_nibble.
  f_equal; [|now apply IH].
  rewrite (nibbles v1), (nibbles v2). now rewrite Hhi, Hlo.
Qed.

(** X11. The hexadecimal rendering loses nothing of the digest: two cache keys
    have the same object key exactly when their MD5 digests are equal. *)
Theorem object_key_eq_iff_digest_eq (k1 k2 : string) :
  cacheKeyToObjectKey k1 = cacheKeyToObjectKey k2
  <-> MD5.sum (string_bytes k1) = MD5.sum (string_bytes k2).
Proof.
  unfold cacheKeyToObjectKey. split.
  - apply EncodeToString_inj; apply sum_byte.
  - now intros ->.
Qed.

(** X12. Under one adapter two cache keys are sent to the same location
    exactly when they have the same object key, that is, when their
    digests collide; the bucket URL never merges two object keys. *)
Theorem url_eq_iff_object_key_eq (c : Cache) (k1 k2 : string) :
  url c k1 = url c k2 <-> cacheKeyToObjectKey k1 = cacheKeyToObjectKey k2.
Proof.
  unfold url. split.
  - destruct (HasSuffix (BucketURL c) "/"); intros H.
    + now apply append_inj_l in H.
    + apply append_inj_l in H. now apply (append_inj_l "/") in H.
  - now intros ->.
Qed.

(** X13. Two adapters send a key to the same location exactly when their
    bucket URLs are equal once each ends in a separator: distinct buckets
    never share a location, and a trailing separator makes no
    difference. *)
Theorem url_eq_iff_bucket_eq (c1 c2 : Cache) (key : string) :
  url c1 key = url c2 key
  <-> BucketURL c1 +:+ (if HasSuffix (BucketURL c1) "/" then "" else "/")
      = BucketURL c2 +:+ (if HasSuffix (BucketURL c2) "/" then "" else "/").
Proof.
  assert (Hu : forall c,
             url c key
             = (BucketURL c +:+ (if HasSuffix (BucketURL c) "/" then ""
                                 else "/"))
               +:+ cacheKeyToObjectKey key).
  { intros c. unfold url. destruct (HasSuffix (BucketURL c) "/").
    - now rewrite append_empty_r.
    - now rewrite append_assoc. }
  rewrite !Hu. split.
  - apply append_inj_r.
  - now intros ->.
Qed.

(** X14. The location of a key is the bucket URL, lengthened by a separator
    if it does not end in one, and then by the 32 characters of the
    object key, in which the location ends. *)
Theorem url_length_and_suffix (c : Cache) (key : string) :
  String.length (url c key)
  = (String.length (BucketURL c)
     + (if HasSuffix (BucketURL c) "/" then 0 else 1) + 32)%nat
  /\ HasSuffix (url c key) (cacheKeyToObjectKey key) = true
  /\ HasSuffix (url c key) ("/" +:+ cacheKeyToObjectKey key) = true.
Proof.
  unfold url. destruct (HasSuffix (BucketURL c) "/") eqn:Hs.
  - rewrite length_append, cacheKeyToObjectKey_length.
    split; [lia|]. split; [apply HasSuffix_append|].
    destruct (HasSuffix_sep_inv _ Hs) as [base ->].
    rewrite append_assoc. apply HasSuffix_append.
  - rewrite !length_append, cacheKeyToObjectKey_length.
    split; [cbn; lia|]. split; [|apply HasSuffix_append].
    rewrite <- append_assoc. apply HasSuffix_append.
Qed.

(** ** Adapters made by New *)

(** X15. Two adapters made by New for the same bucket URL share their
    entries, whatever credentials each found in its environment: on a
    backend where nothing fails, what one stores under a key the other
    gets back under that key. *)
Theorem New_adapters_share_entries
  (env1 env2 : string -> string) (bucketURL key : string) (p : bytes)
  (w : s3util.World) :
  s3util.faults w = s3util.no_faults ->
  fst (Get key
         (through (New env2 bucketURL)
            (snd (Set_ key p {| this := New env1 bucketURL; world := w |}))))
  = (p, true).
Proof.
  intros Hf.
  destruct (Set_store key p {| this := New env1 bucketURL; world := w |})
    as [Ho Hf'].
  destruct (healthy_never_fails
              {| this := New env1 bucketURL; world := w |} key Hf) as [Hs _].
  rewrite Hs in Ho. cbn [this world] in Ho, Hf'. rewrite Hf in Hf'.
  rewrite Get_result. unfold through. cbn [this world].
  rewrite Hf', Ho. cbn.
  change (url (New env2 bucketURL) key) with (url (New env1 bucketURL) key).
  now rewrite lookup_insert_eq.
Qed.

Lemma New_adapters_share_entries_witness :
  s3util.faults (world Sample.fresh) = s3util.no_faults
  /\ Config Sample.anonymous <> Config Sample.cache
  /\ fst (Get "k"
            (through Sample.anonymous
               (snd (Set_ "k" (Sample.payload "abc") Sample.fresh))))
     = (Sample.payload "abc", true).
Proof.
  split; [reflexivity|]. split; [discriminate|].
  apply (New_adapters_share_entries (fun _ => "secret"%string)
           (fun _ => ""%string)
           "https://s3-us-west-2.amazonaws.com/mybucket" "k"
           (Sample.payload "abc") (world Sample.fresh)).
  reflexivity.
Defined.
